(** * Image handler: validation, preview and simulated upload of image batches

    A shallow embedding of [src/js/imageHandler.js] (class [ImageHandler]) and
    the properties of its batch pipeline.

    - JavaScript numbers that occur in the program are file sizes (non-negative
      integers) and their quotients by 1024; dividing a binary floating-point
      number by a power of two is exact, so these values are modelled as
      rationals ([Q]) and [Number.prototype.toFixed] is modelled by its
      ECMAScript definition over the exact value.
    - A promise is modelled by its settlement ([Resolved]/[Rejected]) together
      with the trace of host interactions performed before it settles
      (file reads, timers, console output).
    - The host's [FileReader] is a parameter of the development: the outcome of
      reading a file as a data URL is given by a function of the file. Only
      the round trip of the preview needs to know what the data URL contains;
      for it the reader is instantiated by [FileReader_readAsDataURL]. *)

From Stdlib Require Import NArith ZArith QArith Qround String Ascii List Lia.
From stdpp Require Import base list strings.


(* ------------------------------------------------------------------------- *)
(** ** Data model *)

(** The browser's [File]: the properties read by the program, and the byte
    source behind it ([None] when the source cannot be read). *)
Module File.
Record t : Type := mk
  { name : string;
    size : N;
    type : string;
    bytes : option (list Byte.byte) }.
End File.

(** [this] of the class: the two fields set by the constructor. *)
Record ImageHandler : Type := mkImageHandler
  { maxFileSize : N;
    allowedTypes : list string }.

(** [constructor()]. *)
Definition ImageHandler_new : ImageHandler :=
  {| maxFileSize := 5 * 1024 * 1024;
     allowedTypes := ["image/jpeg"; "image/jpg"; "image/png"; "image/gif"; "image/webp"] |}.

(** The global instance [imageHandler]. *)
Definition imageHandler : ImageHandler := ImageHandler_new.

(** The object returned by [validateImage]. *)
Record ValidationResult : Type := mkValidationResult
  { valid : bool;
    errors : list string }.

(** The objects pushed by [processImages]. *)
Module ProcessedImage.
Record t : Type := mk
  { file : File.t;
    previewUrl : string;
    name : string;
    size : N;
    type : string }.
End ProcessedImage.

(** The objects produced by the upload functions; the field [success]
    distinguishes the two shapes. *)
Inductive UploadResult : Type :=
| UploadSuccess (url : string) (filename : string) (size : N)
| UploadFailure (error : string) (filename : string).

Definition success (r : UploadResult) : bool :=
  match r with
  | UploadSuccess _ _ _ => true
  | UploadFailure _ _ => false
  end.

Definition filename (r : UploadResult) : string :=
  match r with
  | UploadSuccess _ fn _ => fn
  | UploadFailure _ fn => fn
  end.

(** A JavaScript [Error] object. *)
Record Error : Type := mkError { message : string }.

(* ------------------------------------------------------------------------- *)
(** ** Built-ins used by the program *)

(** [Array.prototype.includes] on an array of strings. *)
Fixpoint includes (l : list string) (x : string) : bool :=
  match l with
  | [] => false
  | y :: l' => if String.eqb y x then true else includes l' x
  end.

(** [Array.prototype.join]. *)
Definition join (sep : string) (l : list string) : string := String.concat sep l.

Definition digit_char (d : N) : ascii := ascii_of_N (48 + d).

(** Decimal representation of a natural number, without leading zeros
    (["0"] for zero). The fuel bounds the number of digits. *)
Fixpoint decimal_digits_fuel (fuel : nat) (n : N) : string :=
  match fuel with
  | O => ""
  | S fuel' =>
      if (n <? 10)%N then String (digit_char n) ""
      else decimal_digits_fuel fuel' (n / 10) +:+ String (digit_char (n mod 10)) ""
  end.

Definition decimal_digits (n : N) : string :=
  decimal_digits_fuel (S (N.to_nat (N.log2 n))) n.

Fixpoint zeros (k : nat) : string :=
  match k with
  | O => ""
  | S k' => String "0" (zeros k')
  end.

(* ------------------------------------------------------------------------- *)
(** ** Promises and host interactions *)

(** What the program asks of the host, in program order. *)
Inductive Event : Type :=
| ReadAsDataURL (file : File.t)
    (* [reader.readAsDataURL(file)], awaited until [onload] or [onerror] *)
| SetTimeout (delay : N)
    (* [await new Promise(resolve => setTimeout(resolve, delay))] *)
| ConsoleError (label : string) (error : Error)
| ConsoleWarn (label : string) (details : list string).

Inductive Settled (A : Type) : Type :=
| Resolved (value : A)
| Rejected (reason : Error).
Arguments Resolved {A} value.
Arguments Rejected {A} reason.

(** An awaited promise: the interactions performed until it settles, and how
    it settles. *)
Record Promise (A : Type) : Type := mkPromise
  { trace : list Event;
    settled : Settled A }.
Arguments mkPromise {A} trace settled.
Arguments trace {A} p.
Arguments settled {A} p.

(** [return v] in an async function. *)
Definition resolve {A} (v : A) : Promise A := mkPromise [] (Resolved v).

(** [throw e] in an async function, [reject(e)] in an executor. *)
Definition reject {A} (e : Error) : Promise A := mkPromise [] (Rejected e).

(** [const x = await p; k x]. *)
Definition await {A B} (p : Promise A) (k : A -> Promise B) : Promise B :=
  match settled p with
  | Resolved v => mkPromise (trace p ++ trace (k v)) (settled (k v))
  | Rejected e => mkPromise (trace p) (Rejected e)
  end.

(** [try { body } catch (error) { handler error }]. *)
Definition try_catch {A} (body : Promise A) (handler : Error -> Promise A) : Promise A :=
  match settled body with
  | Resolved v => body
  | Rejected e => mkPromise (trace body ++ trace (handler e)) (settled (handler e))
  end.

Definition emit (ev : Event) : Promise unit := mkPromise [ev] (Resolved tt).

#[global] Instance Promise_ret : MRet Promise := @resolve.
#[global] Instance Promise_bind : MBind Promise := fun A B k p => await p k.

(** [await new Promise(resolve => setTimeout(resolve, delay))]. *)
Definition setTimeout (delay : N) : Promise unit := emit (SetTimeout delay).

Definition console_error (label : string) (error : Error) : Promise unit :=
  emit (ConsoleError label error).

Definition console_warn (label : string) (details : list string) : Promise unit :=
  emit (ConsoleWarn label details).

Section Host.

(** [Number::toString], used by [toFixed] only for magnitudes of at least
    10^21; left to the host. *)
Variable Number_toString : Q -> string.

(** The outcome of [FileReader.readAsDataURL] on a file: [Some url] when
    [onload] fires with [e.target.result = url], [None] when [onerror]
    fires. *)
Variable readAsDataURL : File.t -> option string.

(** [Number.prototype.toFixed(fractionDigits)] (ECMAScript 21.1.3.3) on a
    finite value, for [0 <= fractionDigits <= 100]. *)
Definition toFixed (x : Q) (fractionDigits : nat) : string :=
  let f := fractionDigits in
  let s := if Qle_bool 0 x then "" else "-" in
  let x := if Qle_bool 0 x then x else Qopp x in
  let m :=
    if Qle_bool (inject_Z (10 ^ 21)) x then Number_toString x
    else
      (* the integer n for which n / 10^f - x is closest to zero, the larger
         one when there are two *)
      let n := Z.to_N (Qfloor (x * inject_Z (10 ^ Z.of_nat f) + (1 # 2))) in
      let m := decimal_digits n in
      if Nat.eqb f 0 then m
      else
        let k := String.length m in
        let m := if Nat.leb k f then zeros (f + 1 - k) +:+ m else m in
        let k := if Nat.leb k f then (f + 1)%nat else k in
        let a := substring 0 (k - f) m in
        let b := substring (k - f) f m in
        a +:+ "." +:+ b
  in
  s +:+ m.

(** The JavaScript number held by an integer-valued property. *)
Definition num (n : N) : Q := inject_Z (Z.of_N n).

(** [validateImage(file)]. *)
Definition validateImage (this : ImageHandler) (file : File.t) : ValidationResult :=
  let result := {| valid := true; errors := [] |} in
  (* Check file type *)
  let result :=
    if negb (includes (allowedTypes this) (File.type file)) then
      {| valid := false;
         errors := errors result ++
           ["Invalid file type: " +:+ File.type file +:+ ". Allowed types: "
              +:+ join ", " (allowedTypes this)] |}
    else result in
  (* Check file size *)
  let result :=
    if (maxFileSize this <? File.size file)%N then
      {| valid := false;
         errors := errors result ++
           ["File too large: " +:+ toFixed (num (File.size file) / 1024 / 1024) 2
              +:+ "MB. Maximum size: "
              +:+ toFixed (num (maxFileSize this) / 1024 / 1024) 2 +:+ "MB"] |}
    else result in
  result.

(** [createPreview(file)]. *)
Definition createPreview (file : File.t) : Promise string :=
  emit (ReadAsDataURL file);;
  match readAsDataURL file with
  | Some result => resolve result
  | None => reject (mkError "Failed to create preview")
  end.

(** [convertToDataUrl(file)]. *)
Definition convertToDataUrl (file : File.t) : Promise string :=
  emit (ReadAsDataURL file);;
  match readAsDataURL file with
  | Some result => resolve result
  | None => reject (mkError "Failed to convert file")
  end.

(** The loop of [processImages], entered at index [i] with [files] the
    elements from index [i] on. *)
Fixpoint processImages_loop (this : ImageHandler) (i : nat) (files : list File.t)
    (processedImages : list ProcessedImage.t) : Promise (list ProcessedImage.t) :=
  match files with
  | [] => mret processedImages
  | file :: files' =>
      let validation := validateImage this file in
      processedImages ←
        (if valid validation then
           try_catch
             (previewUrl ← createPreview file;
              mret (processedImages ++
                      [ProcessedImage.mk file previewUrl (File.name file)
                         (File.size file) (File.type file)]))
             (fun error =>
                console_error ("Error processing file " +:+ File.name file +:+ ":") error;;
                (* Continue processing other files even if one fails *)
                mret processedImages)
         else
           console_warn ("Invalid file " +:+ File.name file +:+ ":") (errors validation);;
           (* Continue processing other files even if one is invalid *)
           mret processedImages);
      (* Yield control back to the browser periodically *)
      (if (i mod 10 =? 9)%nat then setTimeout 0 else mret tt);;
      processImages_loop this (S i) files' processedImages
  end.

(** [processImages(files)]. *)
Definition processImages (this : ImageHandler) (files : list File.t)
    : Promise (list ProcessedImage.t) :=
  processImages_loop this 0 files [].

(** [uploadImage(file)]. *)
Definition uploadImage (file : File.t) : Promise UploadResult :=
  (* Simulate network delay *)
  setTimeout 500;;
  dataUrl ← convertToDataUrl file;
  mret (UploadSuccess dataUrl (File.name file) (File.size file)).

(** The [for (const file of files)] loop of [uploadImages]. *)
Fixpoint uploadImages_loop (files : list File.t) (results : list UploadResult)
    : Promise (list UploadResult) :=
  match files with
  | [] => mret results
  | file :: files' =>
      results ←
        try_catch
          (result ← uploadImage file;
           mret (results ++ [result]))
          (fun error =>
             mret (results ++ [UploadFailure (message error) (File.name file)]));
      uploadImages_loop files' results
  end.

(** [uploadImages(files)]. *)
Definition uploadImages (files : list File.t) : Promise (list UploadResult) :=
  uploadImages_loop files [].

End Host.

(* ------------------------------------------------------------------------- *)
(** ** Data URLs *)

(** Modelled from the spec: the base64 payload of a data URL. The encoding is
    performed by the host's [FileReader], which is not part of the program;
    it is base64 as of RFC 4648, section 4, with padding. *)
Definition base64_alphabet : string :=
  "ABCDEFGHIJKLMNOPQRSTUVWXYZabcdefghijklmnopqrstuvwxyz0123456789+/".

Definition base64_pad : ascii := "="%char.

Definition base64_char (sextet : N) : ascii :=
  match String.get (N.to_nat sextet) base64_alphabet with
  | Some c => c
  | None => base64_pad
  end.

Fixpoint base64_index_from (i : N) (alphabet : string) (c : ascii) : option N :=
  match alphabet with
  | EmptyString => None
  | String a alphabet' =>
      if Ascii.eqb a c then Some i else base64_index_from (N.succ i) alphabet' c
  end.

Definition base64_index (c : ascii) : option N :=
  base64_index_from 0 base64_alphabet c.

Definition byte_of_N (n : N) : Byte.byte :=
  match Byte.of_N n with
  | Some b => b
  | None => Byte.x00
  end.

Fixpoint base64_encode (bs : list Byte.byte) : string :=
  match bs with
  | [] => ""
  | [b1] =>
      let n1 := Byte.to_N b1 in
      String (base64_char (n1 / 4))
        (String (base64_char (n1 mod 4 * 16))
           (String base64_pad (String base64_pad "")))
  | [b1; b2] =>
      let n1 := Byte.to_N b1 in
      let n2 := Byte.to_N b2 in
      String (base64_char (n1 / 4))
        (String (base64_char (n1 mod 4 * 16 + n2 / 16))
           (String (base64_char (n2 mod 16 * 4)) (String base64_pad "")))
  | b1 :: b2 :: b3 :: bs' =>
      let n1 := Byte.to_N b1 in
      let n2 := Byte.to_N b2 in
      let n3 := Byte.to_N b3 in
      String (base64_char (n1 / 4))
        (String (base64_char (n1 mod 4 * 16 + n2 / 16))
           (String (base64_char (n2 mod 16 * 4 + n3 / 64))
              (String (base64_char (n3 mod 64)) (base64_encode bs'))))
  end%N.

(** Base64 decoding, used to state the round trip. *)
Fixpoint base64_decode (s : string) : option (list Byte.byte) :=
  match s with
  | EmptyString => Some []
  | String c1 (String c2 (String c3 (String c4 s'))) =>
      match base64_index c1, base64_index c2 with
      | Some s1, Some s2 =>
          let b1 := byte_of_N (s1 * 4 + s2 / 16) in
          if Ascii.eqb c3 base64_pad then
            if Ascii.eqb c4 base64_pad && String.eqb s' "" then Some [b1] else None
          else
            match base64_index c3 with
            | Some s3 =>
                let b2 := byte_of_N (s2 mod 16 * 16 + s3 / 4) in
                if Ascii.eqb c4 base64_pad then
                  if String.eqb s' "" then Some [b1; b2] else None
                else
                  match base64_index c4, base64_decode s' with
                  | Some s4, Some bs' =>
                      Some (b1 :: b2 :: byte_of_N (s3 mod 4 * 64 + s4) :: bs')
                  | _, _ => None
                  end
            | None => None
            end
      | _, _ => None
      end
  | _ => None
  end%N.

(** Modelled from the spec: the host's [FileReader.readAsDataURL], which is
    not part of the program. It reads the file's full byte content and encodes
    it as [data:<mime>;base64,<payload>] with the file's declared mime type;
    the read fails when the byte source cannot be read. *)
Definition FileReader_readAsDataURL (file : File.t) : option string :=
  match File.bytes file with
  | Some content =>
      Some ("data:" +:+ File.type file +:+ ";base64," +:+ base64_encode content)
  | None => None
  end.

(** [s] contains [sub] as a contiguous substring. *)
Definition contains (s sub : string) : Prop :=
  exists pre post, s = pre +:+ sub +:+ post.

(* ------------------------------------------------------------------------- *)
(** ** Reference descriptions

    What the specification says the operations compute, written directly;
    the theorems below relate the program to them. *)

(** A decimal numeral with exactly two fractional digits, denoting [n / 100]. *)
Definition two_decimals (n : N) : string :=
  decimal_digits (n / 100) +:+ "." +:+
  String (digit_char (n / 10 mod 10)) (String (digit_char (n mod 10)) "").

(** The number of hundredths of a megabyte (2^20 bytes) nearest to [bytes]
    bytes, the larger one in case of a tie. *)
Definition hundredths_of_MB (bytes : N) : N := (200 * bytes + 2 ^ 20) / 2 ^ 21.

(** The largest size below which [toFixed] renders a size in megabytes in
    fixed notation (10^21 megabytes). Every size an [unsigned long long] can
    hold is within this range. *)
Definition fixed_notation_limit : N := 2 ^ 20 * 10 ^ 21.

Section Reference.

Variable Number_toString : Q -> string.
Variable readAsDataURL : File.t -> option string.

(** The record built for a file and its preview. *)
Definition processed (file : File.t) (previewUrl : string) : ProcessedImage.t :=
  ProcessedImage.mk file previewUrl (File.name file) (File.size file) (File.type file).

(** The entry the batch processor contributes for one file, if any: the
    file must pass validation and its preview must succeed. *)
Definition process_one (this : ImageHandler) (file : File.t) : option ProcessedImage.t :=
  if valid (validateImage Number_toString this file) then
    match readAsDataURL file with
    | Some url => Some (processed file url)
    | None => None
    end
  else None.

(** The host interactions caused by one file of a batch, the periodic yield
    apart. *)
Definition file_events (this : ImageHandler) (file : File.t) : list Event :=
  if valid (validateImage Number_toString this file) then
    match readAsDataURL file with
    | Some _ => [ReadAsDataURL file]
    | None =>
        [ReadAsDataURL file;
         ConsoleError ("Error processing file " +:+ File.name file +:+ ":")
           (mkError "Failed to create preview")]
    end
  else
    [ConsoleWarn ("Invalid file " +:+ File.name file +:+ ":")
       (errors (validateImage Number_toString this file))].

(** The yield that follows the file at index [i]. *)
Definition yield_after (i : nat) : list Event :=
  if (i mod 10 =? 9)%nat then [SetTimeout 0] else [].

(** The loop of [processImages] with the periodic yield left out. *)
Fixpoint processImages_without_yield (this : ImageHandler) (files : list File.t)
    (processedImages : list ProcessedImage.t) : Promise (list ProcessedImage.t) :=
  match files with
  | [] => mret processedImages
  | file :: files' =>
      let validation := validateImage Number_toString this file in
      processedImages ←
        (if valid validation then
           try_catch
             (previewUrl ← createPreview readAsDataURL file;
              mret (processedImages ++ [processed file previewUrl]))
             (fun error =>
                console_error ("Error processing file " +:+ File.name file +:+ ":") error;;
                mret processedImages)
         else
           console_warn ("Invalid file " +:+ File.name file +:+ ":") (errors validation);;
           mret processedImages);
      processImages_without_yield this files' processedImages
  end.

(** The entry the batch uploader contributes for one file. *)
Definition upload_entry (file : File.t) : UploadResult :=
  match readAsDataURL file with
  | Some url => UploadSuccess url (File.name file) (File.size file)
  | None => UploadFailure "Failed to convert file" (File.name file)
  end.

(** The periodic yield: awaiting a timer of delay zero. *)
Definition is_yield (ev : Event) : bool :=
  match ev with
  | SetTimeout delay => (delay =? 0)%N
  | _ => false
  end.

End Reference.


(* ------------------------------------------------------------------------- *)
(** ** Reading traces and results *)

(** The file a trace entry reads, if it is a read. *)
Definition read_of (ev : Event) : option File.t :=
  match ev with
  | ReadAsDataURL file => Some file
  | _ => None
  end.

Definition is_console_warn (ev : Event) : bool :=
  match ev with
  | ConsoleWarn _ _ => true
  | _ => false
  end.

Definition is_console_error (ev : Event) : bool :=
  match ev with
  | ConsoleError _ _ => true
  | _ => false
  end.

(** The time a trace entry waits for a timer. *)
Definition delay_of (ev : Event) : N :=
  match ev with
  | SetTimeout delay => delay
  | _ => 0
  end.

(** The total time a trace waits for timers. *)
Definition total_delay (tr : list Event) : N :=
  foldr (fun ev acc => (delay_of ev + acc)%N) 0%N tr.

(** Whether the host can read the file. *)
Definition readable (readAsDataURL : File.t -> option string) (file : File.t) : bool :=
  match readAsDataURL file with
  | Some _ => true
  | None => false
  end.

(** The success entry reported for the file of a processed image. *)
Definition uploaded (img : ProcessedImage.t) : UploadResult :=
  UploadSuccess (ProcessedImage.previewUrl img) (ProcessedImage.name img)
    (ProcessedImage.size img).
(** A host [Number::toString] for the examples (its result is never used:
    the sizes are far below 10^21 megabytes). *)
Definition sample_toString (x : Q) : string := "".

Definition sample_oversized_bmp : File.t :=
  File.mk "scan.bmp" 6000000 "image/bmp" None.


(** A host reader for the examples: a readable source yields some data URL. *)
Definition sample_readAsDataURL (file : File.t) : option string :=
  match File.bytes file with
  | Some _ => Some ("data:" +:+ File.type file +:+ ";base64,")
  | None => None
  end.

Definition sample_png (i : nat) : File.t :=
  File.mk ("photo" +:+ decimal_digits (N.of_nat i) +:+ ".png") 2048 "image/png" (Some []).

(** Twenty-five acceptable files. *)
Definition sample_batch : list File.t := sample_png <$> seq 0 25.

Definition sample_text_file : File.t :=
  File.mk "notes.txt" 2048 "text/plain" (Some []).

Definition sample_unreadable_png : File.t :=
  File.mk "broken.png" 2048 "image/png" None.

(** The same batch with a file of a disallowed type at index 3 and an
    unreadable file at index 7. *)
Definition sample_batch_two_failures : list File.t :=
  <[7 := sample_unreadable_png]> (<[3 := sample_text_file]> sample_batch).

(** A readable file holding the three bytes of "Man". *)
Definition sample_man : File.t :=
  File.mk "man.png" 3 "image/png" (Some [Byte.x4d; Byte.x61; Byte.x6e]).

(** Three files to upload, the second of which cannot be read. *)
Definition sample_uploads : list File.t :=
  [sample_png 0; sample_unreadable_png; sample_png 2].

(** A file with the type and size of [sample_png 0] under another name and
    with other content. *)
Definition sample_renamed : File.t :=
  File.mk "setup.exe" 2048 "image/png" (Some [Byte.x4d; Byte.x5a]).

(** A PNG slightly above the default limit of 5,242,880 bytes. *)
Definition sample_just_too_large : File.t :=
  File.mk "large.png" 5245000 "image/png" (Some []).

(** The first twenty files of [sample_batch]. *)
Definition sample_twenty : list File.t := take 20 sample_batch.
(* ------------------------------------------------------------------------- *)
(** ** Strings and decimal numerals *)

Lemma string_app_cons (c : ascii) (a b : string) :
  String c a +:+ b = String c (a +:+ b).
Proof. reflexivity. Qed.

Lemma string_app_nil (b : string) : "" +:+ b = b.
Proof. reflexivity. Qed.

Lemma string_length_app (a b : string) :
  String.length (a +:+ b) = (String.length a + String.length b)%nat.
Proof.
  induction a as [|c a IH]; [reflexivity |].
  rewrite string_app_cons. simpl. congruence.
Qed.

Lemma substring_all (s : string) : substring 0 (String.length s) s = s.
Proof. induction s as [|c s IH]; simpl; congruence. Qed.

Lemma substring_app_prefix (a b : string) :
  substring 0 (String.length a) (a +:+ b) = a.
Proof.
  induction a as [|c a IH].
  - destruct b; reflexivity.
  - rewrite string_app_cons. simpl. congruence.
Qed.

Lemma substring_app_suffix (a b : string) :
  substring (String.length a) (String.length b) (a +:+ b) = b.
Proof.
  induction a as [|c a IH].
  - apply substring_all.
  - rewrite string_app_cons. simpl. assumption.
Qed.

Lemma string_app_assoc (a b c : string) : (a +:+ b) +:+ c = a +:+ (b +:+ c).
Proof.
  induction a as [|x a IH]; [reflexivity |].
  rewrite !string_app_cons. congruence.
Qed.

Lemma decimal_digits_fuel_S (fuel : nat) (n : N) :
  decimal_digits_fuel (S fuel) n =
    if (n <? 10)%N then String (digit_char n) ""
    else decimal_digits_fuel fuel (n / 10) +:+ String (digit_char (n mod 10)) "".
Proof. reflexivity. Qed.

Lemma decimal_digits_fuel_irrelevant (f1 : nat) :
  forall (f2 : nat) (n : N),
    (n < 2 ^ N.of_nat (S f1))%N -> (n < 2 ^ N.of_nat (S f2))%N ->
    decimal_digits_fuel (S f1) n = decimal_digits_fuel (S f2) n.
Proof.
  induction f1 as [|f1 IH]; intros f2 n H1 H2.
  - rewrite !decimal_digits_fuel_S.
    change (2 ^ N.of_nat 1)%N with 2%N in H1.
    destruct (N.ltb_spec n 10); [reflexivity | lia].
  - rewrite (decimal_digits_fuel_S (S f1)), (decimal_digits_fuel_S f2).
    destruct (N.ltb_spec n 10) as [Hlt|Hge]; [reflexivity |].
    destruct f2 as [|f2]; [change (2 ^ N.of_nat 1)%N with 2%N in H2; lia |].
    rewrite (Nat2N.inj_succ (S f1)), N.pow_succ_r' in H1.
    rewrite (Nat2N.inj_succ (S f2)), N.pow_succ_r' in H2.
    rewrite (IH f2); [reflexivity | |];
      apply N.Div0.div_lt_upper_bound; lia.
Qed.

Lemma lt_pow2_succ_log2 (n : N) : (n < 2 ^ N.of_nat (S (N.to_nat (N.log2 n))))%N.
Proof.
  rewrite Nat2N.inj_succ, N2Nat.id.
  destruct n as [|p]; [reflexivity |].
  apply N.log2_spec. lia.
Qed.

Lemma decimal_digits_unfold (n : N) :
  decimal_digits n =
    if (n <? 10)%N then String (digit_char n) ""
    else decimal_digits (n / 10) +:+ String (digit_char (n mod 10)) "".
Proof.
  unfold decimal_digits at 1. rewrite decimal_digits_fuel_S.
  destruct (N.ltb_spec n 10) as [Hlt|Hge]; [reflexivity |].
  f_equal. unfold decimal_digits.
  pose proof (lt_pow2_succ_log2 n) as Hn.
  pose proof (lt_pow2_succ_log2 (n / 10)) as Hq.
  destruct (N.to_nat (N.log2 n)) as [|k].
  - change (2 ^ N.of_nat 1)%N with 2%N in Hn. lia.
  - apply decimal_digits_fuel_irrelevant; [| exact Hq].
    rewrite (Nat2N.inj_succ (S k)), N.pow_succ_r' in Hn.
    apply N.Div0.div_lt_upper_bound. lia.
Qed.

Lemma decimal_digits_length (n : N) : (1 <= String.length (decimal_digits n))%nat.
Proof.
  rewrite decimal_digits_unfold. destruct (n <? 10)%N; [simpl; lia |].
  rewrite string_length_app. simpl. lia.
Qed.

Lemma toFixed_render (n : N) :
  let m := decimal_digits n in
  let k := String.length m in
  let m' := if Nat.leb k 2 then zeros (2 + 1 - k) +:+ m else m in
  let k' := if Nat.leb k 2 then (2 + 1)%nat else k in
  substring 0 (k' - 2) m' +:+ "." +:+ substring (k' - 2) 2 m' = two_decimals n.
Proof.
  unfold two_decimals.
  destruct (N.ltb_spec n 10) as [H10|H10].
  - rewrite (decimal_digits_unfold n). rewrite (proj2 (N.ltb_lt n 10) H10).
    rewrite N.div_small, N.div_small, N.mod_small, N.mod_small by lia.
    reflexivity.
  - destruct (N.ltb_spec n 100) as [H100|H100].
    + rewrite (decimal_digits_unfold n). rewrite (proj2 (N.ltb_ge n 10) H10).
      rewrite (decimal_digits_unfold (n / 10)).
      assert (n / 10 < 10)%N as Hq by (apply N.Div0.div_lt_upper_bound; lia).
      rewrite (proj2 (N.ltb_lt _ 10) Hq).
      rewrite (N.div_small n 100), (N.mod_small (n / 10) 10) by lia.
      reflexivity.
    + rewrite (decimal_digits_unfold n). rewrite (proj2 (N.ltb_ge n 10) H10).
      rewrite (decimal_digits_unfold (n / 10)).
      assert (10 <= n / 10)%N as Hq by (apply N.div_le_lower_bound; lia).
      rewrite (proj2 (N.ltb_ge _ 10) Hq).
      rewrite N.Div0.div_div. change (10 * 10)%N with 100%N.
      set (hi := decimal_digits (n / 100)).
      set (d1 := digit_char (n / 10 mod 10)). set (d0 := digit_char (n mod 10)).
      rewrite string_app_assoc. rewrite string_app_cons, string_app_nil.
      cbv zeta.
      rewrite string_length_app.
      pose proof (decimal_digits_length (n / 100)) as Hlen. fold hi in Hlen.
      change (String.length (String d1 (String d0 ""))) with 2%nat.
      destruct (Nat.leb_spec (String.length hi + 2) 2) as [Hle|Hgt]; [lia |].
      replace (String.length hi + 2 - 2)%nat with (String.length hi) by lia.
      rewrite substring_app_prefix.
      change 2%nat with (String.length (String d1 (String d0 ""))) at 1.
      rewrite substring_app_suffix. reflexivity.
Qed.
(* ------------------------------------------------------------------------- *)
(** ** The validator *)

Section Validator.

Variable Number_toString : Q -> string.

Local Abbreviation validate := (validateImage Number_toString).
Local Abbreviation fixed := (toFixed Number_toString).

Lemma includes_spec (l : list string) (x : string) :
  includes l x = true <-> x ∈ l.
Proof.
  induction l as [|y l IH]; simpl.
  - split; [discriminate | intros H; inversion H].
  - destruct (String.eqb_spec y x) as [->|Hne].
    + split; [intros _; left | reflexivity].
    + rewrite IH. split; [intros H; by right |].
      intros H. inversion H; subst; [congruence | assumption].
Qed.

Lemma includes_false (l : list string) (x : string) :
  includes l x = false <-> x ∉ l.
Proof.
  rewrite <- includes_spec. destruct (includes l x); split; congruence.
Qed.

(** The four outcomes of the two checks. *)
Lemma validateImage_cases (this : ImageHandler) (file : File.t) :
  validate this file =
    {| valid := includes (allowedTypes this) (File.type file)
                && negb (maxFileSize this <? File.size file)%N;
       errors :=
         (if includes (allowedTypes this) (File.type file) then []
          else ["Invalid file type: " +:+ File.type file +:+ ". Allowed types: "
                  +:+ join ", " (allowedTypes this)])
         ++
         (if (maxFileSize this <? File.size file)%N then
            ["File too large: " +:+ fixed (num (File.size file) / 1024 / 1024) 2
               +:+ "MB. Maximum size: "
               +:+ fixed (num (maxFileSize this) / 1024 / 1024) 2 +:+ "MB"]
          else []) |}.
Proof.
  unfold validateImage.
  destruct (includes _ _), (_ <? _)%N; reflexivity.
Qed.

Lemma includes_notin (l : list string) (x : string) :
  x ∉ l -> includes l x = false.
Proof. apply includes_false. Qed.

Lemma ltb_of_lt (a b : N) : (a < b)%N -> (a <? b)%N = true.
Proof. apply N.ltb_lt. Qed.

(** C2: a file whose type is not allowed and whose size exceeds the limit is
    rejected with exactly two errors, the type error and the size error:
    the failed type check does not prevent the size check from running.
    Each check is independent of the other: the type error is reported for
    every file of that type whatever its size, and the size error for every
    file of that size whatever its type. *)
Theorem validateImage_both_checks_fail (this : ImageHandler) (file : File.t) :
  File.type file ∉ allowedTypes this ->
  (maxFileSize this < File.size file)%N ->
  let type_error :=
    "Invalid file type: " +:+ File.type file +:+ ". Allowed types: "
      +:+ join ", " (allowedTypes this) in
  let size_error :=
    "File too large: " +:+ fixed (num (File.size file) / 1024 / 1024) 2
      +:+ "MB. Maximum size: "
      +:+ fixed (num (maxFileSize this) / 1024 / 1024) 2 +:+ "MB" in
  valid (validate this file) = false /\
  length (errors (validate this file)) = 2 /\
  errors (validate this file) = [type_error; size_error] /\
  (forall file', File.type file' = File.type file ->
                 type_error ∈ errors (validate this file')) /\
  (forall file', File.size file' = File.size file ->
                 size_error ∈ errors (validate this file')).
Proof.
  intros Htype Hsize type_error size_error.
  rewrite validateImage_cases.
  rewrite (includes_notin _ _ Htype), (ltb_of_lt _ _ Hsize).
  split; [reflexivity |]. split; [reflexivity |]. split; [reflexivity |].
  split; intros file' Heq; rewrite validateImage_cases; cbn [errors]; rewrite Heq.
  - rewrite (includes_notin _ _ Htype). apply elem_of_app. left. apply list_elem_of_here.
  - rewrite (ltb_of_lt _ _ Hsize). apply elem_of_app. right. apply list_elem_of_here.
Qed.

(** C3: a file whose type is not among the allowed types is rejected, and the
    first error pushed is "Invalid file type: <type>. Allowed types: <list>"
    with the allowed types joined by ", "; the message contains the
    offending type. *)
Theorem validateImage_type_error (this : ImageHandler) (file : File.t) :
  File.type file ∉ allowedTypes this ->
  let msg := "Invalid file type: " +:+ File.type file +:+ ". Allowed types: "
               +:+ join ", " (allowedTypes this) in
  valid (validate this file) = false /\
  (exists later, errors (validate this file) = msg :: later) /\
  msg ∈ errors (validate this file) /\
  contains msg (File.type file).
Proof.
  intros Htype msg.
  rewrite validateImage_cases, (includes_notin _ _ Htype).
  split; [reflexivity |]. split; [| split].
  - eexists. reflexivity.
  - simpl. left.
  - exists "Invalid file type: ", (". Allowed types: " +:+ join ", " (allowedTypes this)).
    reflexivity.
Qed.

(** C10: the verdict is [valid = true] exactly when no error was recorded,
    and when both checks fail the type error comes before the size error. *)
Theorem validateImage_valid_iff_no_errors (this : ImageHandler) (file : File.t) :
  (valid (validate this file) = true <-> errors (validate this file) = []) /\
  (valid (validate this file) = false <-> errors (validate this file) <> []) /\
  (File.type file ∉ allowedTypes this ->
   (maxFileSize this < File.size file)%N ->
   exists type_error size_error,
     errors (validate this file) = [type_error; size_error] /\
     type_error = "Invalid file type: " +:+ File.type file +:+ ". Allowed types: "
                    +:+ join ", " (allowedTypes this) /\
     size_error = "File too large: " +:+ fixed (num (File.size file) / 1024 / 1024) 2
                    +:+ "MB. Maximum size: "
                    +:+ fixed (num (maxFileSize this) / 1024 / 1024) 2 +:+ "MB").
Proof.
  rewrite validateImage_cases. cbn [valid errors].
  split; [| split].
  - destruct (includes _ _), (_ <? _)%N; simpl; split; congruence.
  - destruct (includes _ _), (_ <? _)%N; simpl; split; congruence.
  - intros Htype Hsize.
    rewrite (includes_notin _ _ Htype), (ltb_of_lt _ _ Hsize).
    eexists _, _. repeat split.
Qed.

(** [toFixed(2)] of a size in megabytes, in the range where [toFixed] uses
    fixed notation: the nearest number of hundredths, with two fractional
    digits. *)
Lemma toFixed_megabytes (bytes : N) :
  (bytes < fixed_notation_limit)%N ->
  fixed (num bytes / 1024 / 1024) 2 = two_decimals (hundredths_of_MB bytes).
Proof.
  unfold fixed_notation_limit. intros Hb. unfold toFixed.
  assert (H0 : Qle_bool 0 (num bytes / 1024 / 1024) = true).
  { apply Qle_bool_iff. unfold Qle, num. cbn. lia. }
  assert (H1 : Qle_bool (inject_Z (10 ^ 21)) (num bytes / 1024 / 1024) = false).
  { apply not_true_is_false. rewrite Qle_bool_iff. unfold Qle, num. cbn. lia. }
  assert (H2 : Z.to_N (Qfloor (num bytes / 1024 / 1024 * inject_Z (10 ^ Z.of_nat 2)
                               + (1 # 2))) = hundredths_of_MB bytes).
  { unfold Qfloor, num, hundredths_of_MB. cbn.
    change (10 ^ Z.of_nat 2)%Z with 100%Z.
    change (1 * 1024 * 1024 * 1 * 2)%positive with 2097152%positive.
    change (1 * 1024 * 1024 * 1)%positive with 1048576%positive.
    change (2 ^ 20)%N with 1048576%N. change (2 ^ 21)%N with 2097152%N.
    rewrite <- (Z2N.id 2097152) by lia.
    replace (Z.of_N bytes * 1 * 1 * 100 * 2 + 1 * 1048576)%Z
      with (Z.of_N (200 * bytes + 1048576)) by lia.
    change (Z.of_N (Z.to_N 2097152)) with (Z.of_N 2097152).
    rewrite <- N2Z.inj_div. apply N2Z.id. }
  rewrite H0, H1, H2. cbv zeta.
  change (Nat.eqb 2 0) with false. cbv iota.
  rewrite string_app_nil.
  apply toFixed_render.
Qed.

(** The numeral is the size in megabytes rounded to the nearest hundredth. *)
Lemma hundredths_of_MB_nearest (bytes : N) :
  (2 ^ 21 * hundredths_of_MB bytes <= 200 * bytes + 2 ^ 20
   < 2 ^ 21 * (hundredths_of_MB bytes + 1))%N.
Proof.
  unfold hundredths_of_MB.
  change (2 ^ 20)%N with 1048576%N. change (2 ^ 21)%N with 2097152%N.
  pose proof (N.Div0.div_mod (200 * bytes + 1048576) 2097152) as Hdm.
  assert (Hub : ((200 * bytes + 1048576) mod 2097152 < 2097152)%N)
    by (apply N.mod_upper_bound; discriminate).
  revert Hdm Hub.
  generalize ((200 * bytes + 1048576) / 2097152)%N,
             ((200 * bytes + 1048576) mod 2097152)%N.
  intros q r Hdm Hub. lia.
Qed.

(** C4: a file larger than the limit is rejected, and the last error pushed
    is "File too large: <size>MB. Maximum size: <max>MB" where both numbers
    are the sizes in megabytes (2^20 bytes) rounded to the nearest hundredth
    and written with two decimals; the constructor sets the limit to
    5,242,880 bytes and the allowed types to the five image types. The size
    is taken in the range where [toFixed] writes fixed notation, which
    contains every size a [File] can report. *)
Theorem validateImage_size_error (this : ImageHandler) (file : File.t) :
  (maxFileSize this < File.size file)%N ->
  (File.size file < fixed_notation_limit)%N ->
  let size_MB := hundredths_of_MB (File.size file) in
  let max_MB := hundredths_of_MB (maxFileSize this) in
  let msg := "File too large: " +:+ two_decimals size_MB
               +:+ "MB. Maximum size: " +:+ two_decimals max_MB +:+ "MB" in
  valid (validate this file) = false /\
  last (errors (validate this file)) = Some msg /\
  (2 ^ 21 * size_MB <= 200 * File.size file + 2 ^ 20 < 2 ^ 21 * (size_MB + 1))%N /\
  (2 ^ 21 * max_MB <= 200 * maxFileSize this + 2 ^ 20 < 2 ^ 21 * (max_MB + 1))%N /\
  maxFileSize ImageHandler_new = 5242880%N /\
  allowedTypes ImageHandler_new =
    ["image/jpeg"; "image/jpg"; "image/png"; "image/gif"; "image/webp"].
Proof.
  intros Hsize Hrange size_MB max_MB msg.
  rewrite validateImage_cases, (ltb_of_lt _ _ Hsize). cbn [valid errors].
  rewrite !toFixed_megabytes by lia.
  split; [apply andb_false_r |].
  split; [| split; [apply hundredths_of_MB_nearest |
                    split; [apply hundredths_of_MB_nearest | split; reflexivity]]].
  destruct (includes _ _); reflexivity.
Qed.

End Validator.

Lemma validateImage_both_checks_fail_witness :
  valid (validateImage sample_toString imageHandler sample_oversized_bmp) = false /\
  length (errors (validateImage sample_toString imageHandler sample_oversized_bmp)) = 2.
Proof.
  destruct (validateImage_both_checks_fail sample_toString imageHandler sample_oversized_bmp)
    as (Hv & Hl & _).
  - apply includes_false. reflexivity.
  - reflexivity.
  - split; assumption.
Defined.

Lemma validateImage_size_error_witness :
  (maxFileSize imageHandler < File.size sample_oversized_bmp)%N /\
  (File.size sample_oversized_bmp < fixed_notation_limit)%N /\
  valid (validateImage sample_toString imageHandler sample_oversized_bmp) = false /\
  last (errors (validateImage sample_toString imageHandler sample_oversized_bmp))
    = Some "File too large: 5.72MB. Maximum size: 5.00MB".
Proof.
  assert (H1 : (maxFileSize imageHandler < File.size sample_oversized_bmp)%N)
    by reflexivity.
  assert (H2 : (File.size sample_oversized_bmp < fixed_notation_limit)%N)
    by reflexivity.
  destruct (validateImage_size_error sample_toString imageHandler sample_oversized_bmp H1 H2)
    as (Hv & Hl & _).
  repeat split; assumption.
Defined.

Lemma validateImage_type_error_witness :
  (File.type sample_text_file ∉ allowedTypes imageHandler) /\
  valid (validateImage sample_toString imageHandler sample_text_file) = false /\
  errors (validateImage sample_toString imageHandler sample_text_file) =
    ["Invalid file type: text/plain. Allowed types: image/jpeg, image/jpg, image/png, image/gif, image/webp"] /\
  contains
    "Invalid file type: text/plain. Allowed types: image/jpeg, image/jpg, image/png, image/gif, image/webp"
    "text/plain".
Proof.
  assert (H : File.type sample_text_file ∉ allowedTypes imageHandler)
    by (apply includes_false; reflexivity).
  destruct (validateImage_type_error sample_toString imageHandler sample_text_file H)
    as (Hv & _ & _ & Hc).
  split; [exact H |]. split; [exact Hv |]. split; [reflexivity | exact Hc].
Defined.

Lemma validateImage_valid_iff_no_errors_witness :
  valid (validateImage sample_toString imageHandler (sample_png 0)) = true /\
  errors (validateImage sample_toString imageHandler (sample_png 0)) = [] /\
  errors (validateImage sample_toString imageHandler sample_oversized_bmp) =
    ["Invalid file type: image/bmp. Allowed types: image/jpeg, image/jpg, image/png, image/gif, image/webp";
     "File too large: 5.72MB. Maximum size: 5.00MB"].
Proof.
  destruct (validateImage_valid_iff_no_errors sample_toString imageHandler (sample_png 0))
    as ([Hve _] & _ & _).
  destruct (validateImage_valid_iff_no_errors sample_toString imageHandler sample_oversized_bmp)
    as (_ & _ & Hboth).
  split; [reflexivity |]. split; [apply Hve; reflexivity |].
  destruct Hboth as (type_error & size_error & -> & -> & ->).
  - apply includes_false. reflexivity.
  - reflexivity.
  - reflexivity.
Defined.

(* ------------------------------------------------------------------------- *)
(** ** The batch processor *)

Section BatchProcessor.

Variable Number_toString : Q -> string.
Variable readAsDataURL : File.t -> option string.

Local Abbreviation validate := (validateImage Number_toString).
Local Abbreviation preview := (createPreview readAsDataURL).
Local Abbreviation loop := (processImages_loop Number_toString readAsDataURL).
Local Abbreviation process := (processImages Number_toString readAsDataURL).
Local Abbreviation entry := (process_one Number_toString readAsDataURL).
Local Abbreviation events := (file_events Number_toString readAsDataURL).

Lemma createPreview_cases (file : File.t) :
  preview file =
    match readAsDataURL file with
    | Some url => mkPromise [ReadAsDataURL file] (Resolved url)
    | None =>
        mkPromise [ReadAsDataURL file] (Rejected (mkError "Failed to create preview"))
    end.
Proof. unfold createPreview. destruct (readAsDataURL file); reflexivity. Qed.

(** One iteration: the entries and the interactions of the rest of the
    batch follow those of the current file. *)
Lemma processImages_loop_cons (this : ImageHandler) (i : nat) (file : File.t)
    (files : list File.t) (acc : list ProcessedImage.t) :
  loop this i (file :: files) acc =
    let rest := loop this (S i) files
                  (acc ++ match entry this file with Some img => [img] | None => [] end) in
    mkPromise (events this file ++ yield_after i ++ trace rest) (settled rest).
Proof.
  cbn [processImages_loop]. unfold process_one, file_events, yield_after.
  rewrite createPreview_cases.
  destruct (valid (validate this file)); [destruct (readAsDataURL file) |];
    destruct (i mod 10 =? 9)%nat; cbn;
    rewrite ?app_nil_r;
    destruct (settled (loop this (S i) files _)); reflexivity.
Qed.

(** The loop as a whole: the entries of the files in order, and per file
    its interactions followed by the yield when its index is 9 modulo 10. *)
Lemma processImages_loop_spec (this : ImageHandler) (files : list File.t) :
  forall (i : nat) (acc : list ProcessedImage.t),
    loop this i files acc =
      mkPromise
        (concat (imap (fun j file => events this file ++ yield_after (i + j)) files))
        (Resolved (acc ++ omap (entry this) files)).
Proof.
  induction files as [|file files IH]; intros i acc.
  - cbn. by rewrite app_nil_r.
  - rewrite processImages_loop_cons, IH. cbn [trace settled].
    rewrite imap_cons, Nat.add_0_r. cbn [concat].
    f_equal.
    + rewrite <- (app_assoc (events this file)). do 3 f_equal.
      apply imap_ext. intros j f _. cbn. do 2 f_equal. lia.
    + f_equal. rewrite <- (app_assoc acc). f_equal.
      cbn [omap list_omap]. destruct (entry this file); reflexivity.
Qed.

Lemma processImages_spec (this : ImageHandler) (files : list File.t) :
  process this files =
    mkPromise
      (concat (imap (fun j file => events this file ++ yield_after j) files))
      (Resolved (omap (entry this) files)).
Proof. unfold processImages. by rewrite processImages_loop_spec. Qed.

(** *** The entries *)

Lemma entry_Some (this : ImageHandler) (file : File.t) (img : ProcessedImage.t) :
  entry this file = Some img ->
  valid (validate this file) = true /\
  readAsDataURL file = Some (ProcessedImage.previewUrl img) /\
  img = processed file (ProcessedImage.previewUrl img).
Proof.
  unfold process_one.
  destruct (valid (validate this file)); [| discriminate].
  destruct (readAsDataURL file) as [url|]; [| discriminate].
  intros [= <-]. repeat split.
Qed.

Lemma entry_accepted (this : ImageHandler) (file : File.t) (url : string) :
  valid (validate this file) = true ->
  readAsDataURL file = Some url ->
  entry this file = Some (processed file url).
Proof. unfold process_one. by intros -> ->. Qed.

Lemma entry_invalid (this : ImageHandler) (file : File.t) :
  valid (validate this file) = false -> entry this file = None.
Proof. unfold process_one. by intros ->. Qed.

Lemma entry_unreadable (this : ImageHandler) (file : File.t) :
  readAsDataURL file = None -> entry this file = None.
Proof. unfold process_one. intros ->. by destruct (valid _). Qed.

Lemma entries_sublist (this : ImageHandler) (files : list File.t) :
  sublist (ProcessedImage.file <$> omap (entry this) files) files.
Proof.
  induction files as [|file files IH]; [constructor |].
  cbn [omap list_omap]. destruct (entry this file) as [img|] eqn:E.
  - apply entry_Some in E as (_ & _ & ->). cbn. by constructor.
  - by constructor.
Qed.

Lemma entries_built_from_valid_files (this : ImageHandler) (files : list File.t) :
  Forall (fun img =>
            valid (validate this (ProcessedImage.file img)) = true /\
            readAsDataURL (ProcessedImage.file img) = Some (ProcessedImage.previewUrl img) /\
            img = processed (ProcessedImage.file img) (ProcessedImage.previewUrl img))
         (omap (entry this) files).
Proof.
  induction files as [|file files IH]; [constructor |].
  cbn [omap list_omap]. destruct (entry this file) as [img|] eqn:E; [| assumption].
  constructor; [| assumption].
  apply entry_Some in E as (Hv & Hr & ->). cbn. auto.
Qed.

Lemma entries_all_accepted (this : ImageHandler) (files : list File.t) :
  Forall (fun file => valid (validate this file) = true /\ is_Some (readAsDataURL file))
         files ->
  ProcessedImage.file <$> omap (entry this) files = files.
Proof.
  induction 1 as [|file files [Hv [url Hr]] _ IH]; [reflexivity |].
  cbn [omap list_omap]. rewrite (entry_accepted _ _ _ Hv Hr). cbn. by rewrite IH.
Qed.

Lemma entries_delete_dropped (this : ImageHandler) (files : list File.t) :
  forall (k : nat) (file : File.t),
    files !! k = Some file -> entry this file = None ->
    omap (entry this) files = omap (entry this) (delete k files).
Proof.
  induction files as [|f files IH]; intros [|k] file Hk Hnone; try discriminate.
  - cbn in Hk. injection Hk as ->. cbn [omap list_omap]. by rewrite Hnone.
  - cbn in Hk. cbn [delete list_delete omap list_omap].
    by rewrite (IH k file Hk Hnone).
Qed.

(** C1: the batch processor always resolves; the files of its entries form
    an order-preserving subsequence of the input, so there are at most as
    many entries as files; and every entry is built from a file that passes
    validation (with the preview read from that file and the file's own
    name, size and type). *)
Theorem processImages_subsequence_of_valid (this : ImageHandler) (files : list File.t) :
  exists images : list ProcessedImage.t,
    settled (process this files) = Resolved images /\
    sublist (ProcessedImage.file <$> images) files /\
    length images <= length files /\
    Forall (fun img =>
              valid (validate this (ProcessedImage.file img)) = true /\
              ProcessedImage.file img ∈ files /\
              readAsDataURL (ProcessedImage.file img) = Some (ProcessedImage.previewUrl img) /\
              ProcessedImage.name img = File.name (ProcessedImage.file img) /\
              ProcessedImage.size img = File.size (ProcessedImage.file img) /\
              ProcessedImage.type img = File.type (ProcessedImage.file img))
           images.
Proof.
  exists (omap (entry this) files).
  rewrite processImages_spec. cbn [settled].
  pose proof (entries_sublist this files) as Hsub.
  split; [reflexivity |]. split; [assumption |]. split.
  - apply sublist_length in Hsub. by rewrite length_fmap in Hsub.
  - pose proof (entries_built_from_valid_files this files) as Hall.
    rewrite Forall_forall in Hall |- *. intros img Himg.
    destruct (Hall img Himg) as (Hv & Hr & Himg_eq).
    split; [assumption |]. split; [| split; [assumption |]].
    + apply (sublist_subseteq _ _ Hsub). by apply list_elem_of_fmap_2.
    + rewrite Himg_eq. repeat split.
Qed.

(** C6: in a batch of 25 files in which the file at one position fails
    validation, the file at a later position passes validation but fails
    preview generation, and every other file passes both, the processor
    resolves with exactly 23 entries: those of all files but these two, in
    their input order (positions 3 and 7 are an instance). *)
Theorem processImages_isolates_failures (this : ImageHandler) (files : list File.t)
    (a b : nat) (fa fb : File.t) :
  length files = 25 ->
  a < b ->
  files !! a = Some fa ->
  valid (validate this fa) = false ->
  files !! b = Some fb ->
  valid (validate this fb) = true ->
  readAsDataURL fb = None ->
  Forall (fun file => valid (validate this file) = true /\ is_Some (readAsDataURL file))
         (delete a (delete b files)) ->
  exists images : list ProcessedImage.t,
    settled (process this files) = Resolved images /\
    length images = 23 /\
    ProcessedImage.file <$> images = delete a (delete b files) /\
    Forall (fun img => readAsDataURL (ProcessedImage.file img)
                       = Some (ProcessedImage.previewUrl img)) images.
Proof.
  intros Hlen Hab Ha Hva Hb Hvb Hrb Hothers.
  exists (omap (entry this) files).
  rewrite processImages_spec. cbn [settled].
  split; [reflexivity |].
  assert (Ha' : delete b files !! a = Some fa) by (by rewrite list_lookup_delete_lt).
  assert (Hfiles : ProcessedImage.file <$> omap (entry this) files
                   = delete a (delete b files)).
  { rewrite (entries_delete_dropped this files b fb Hb (entry_unreadable _ _ Hrb)).
    rewrite (entries_delete_dropped this _ a fa Ha' (entry_invalid _ _ Hva)).
    by apply entries_all_accepted. }
  split; [| split; [assumption |]].
  - rewrite <- (length_fmap ProcessedImage.file), Hfiles.
    rewrite !length_delete; [lia | by eexists | by eexists].
  - eapply Forall_impl; [apply entries_built_from_valid_files |].
    cbn. by intros img (_ & Hr & _).
Qed.

(** *** The periodic yield *)

Lemma events_no_yield (this : ImageHandler) (file : File.t) :
  List.filter is_yield (events this file) = [].
Proof.
  unfold file_events. destruct (valid _); [destruct (readAsDataURL _) |]; reflexivity.
Qed.

Lemma events_not_yield (this : ImageHandler) (file : File.t) :
  List.filter (fun ev => negb (is_yield ev)) (events this file) = events this file.
Proof.
  unfold file_events. destruct (valid _); [destruct (readAsDataURL _) |]; reflexivity.
Qed.

Lemma yields_counted (this : ImageHandler) (files : list File.t) :
  forall i : nat,
    i / 10 +
    length (List.filter is_yield
              (concat (imap (fun j file => events this file ++ yield_after (i + j)) files)))
    = (i + length files) / 10.
Proof.
  induction files as [|file files IH]; intros i.
  - cbn. by rewrite !Nat.add_0_r.
  - rewrite imap_cons, Nat.add_0_r. cbn [concat length].
    rewrite !List.filter_app, events_no_yield, app_nil_l, length_app.
    rewrite (imap_ext _ (fun j f => events this f ++ yield_after (S i + j)))
      by (intros j f _; cbn; do 2 f_equal; lia).
    specialize (IH (S i)). replace (i + S (length files)) with (S i + length files) by lia.
    rewrite <- IH. unfold yield_after at 1.
    destruct (Nat.eqb_spec (i mod 10) 9) as [E|E]; cbn [List.filter is_yield length N.eqb];
      pose proof (Nat.div_mod_eq i 10); pose proof (Nat.div_mod_eq (S i) 10);
      pose proof (Nat.mod_upper_bound i 10); pose proof (Nat.mod_upper_bound (S i) 10);
      lia.
Qed.

Lemma without_yield_spec (this : ImageHandler) (files : list File.t) :
  forall acc : list ProcessedImage.t,
    processImages_without_yield Number_toString readAsDataURL this files acc =
      mkPromise (concat (events this <$> files))
                (Resolved (acc ++ omap (entry this) files)).
Proof.
  induction files as [|file files IH]; intros acc.
  - cbn. by rewrite app_nil_r.
  - cbn [processImages_without_yield fmap list_fmap concat omap list_omap].
    unfold process_one at 1, file_events at 1. rewrite createPreview_cases.
    destruct (valid (validate this file)); [destruct (readAsDataURL file) |];
      cbn; rewrite IH; cbn; rewrite <- ?app_assoc; reflexivity.
Qed.

Lemma trace_without_yields (this : ImageHandler) (files : list File.t) :
  forall i : nat,
    List.filter (fun ev => negb (is_yield ev))
      (concat (imap (fun j file => events this file ++ yield_after (i + j)) files))
    = concat (events this <$> files).
Proof.
  induction files as [|file files IH]; intros i; [reflexivity |].
  rewrite imap_cons, Nat.add_0_r. cbn [concat fmap list_fmap].
  rewrite !List.filter_app, events_not_yield.
  rewrite (imap_ext _ (fun j f => events this f ++ yield_after (S i + j)))
    by (intros j f _; cbn; do 2 f_equal; lia).
  rewrite IH, <- app_assoc. do 2 f_equal.
  unfold yield_after. by destruct (i mod 10 =? 9).
Qed.

Lemma events_accepted (this : ImageHandler) (file : File.t) :
  valid (validate this file) = true -> is_Some (readAsDataURL file) ->
  events this file = [ReadAsDataURL file].
Proof. unfold file_events. by intros -> [url ->]. Qed.

(** C7: the processor awaits a zero-delay timer exactly after each file
    whose index is 9 modulo 10 (the interactions caused by a file itself
    contain no timer), hence [length files / 10] times; leaving the yield
    out changes neither the result nor the other interactions; and on 25
    files that all pass validation and whose previews all succeed it
    resolves with the 25 entries in input order, having yielded twice: after
    the tenth and after the twentieth file. *)
Theorem processImages_yields_every_tenth (this : ImageHandler) (files : list File.t) :
  trace (process this files) =
    concat (imap (fun i file =>
                    events this file ++
                    (if (i mod 10 =? 9)%nat then [SetTimeout 0] else []))
              files) /\
  (forall file, List.filter is_yield (events this file) = []) /\
  length (List.filter is_yield (trace (process this files))) = length files / 10 /\
  settled (process this files)
    = settled (processImages_without_yield Number_toString readAsDataURL this files []) /\
  List.filter (fun ev => negb (is_yield ev)) (trace (process this files))
    = trace (processImages_without_yield Number_toString readAsDataURL this files []) /\
  (length files = 25 ->
   Forall (fun file => valid (validate this file) = true /\ is_Some (readAsDataURL file))
          files ->
   exists images : list ProcessedImage.t,
     settled (process this files) = Resolved images /\
     length images = 25 /\
     ProcessedImage.file <$> images = files /\
     trace (process this files) =
       (ReadAsDataURL <$> take 10 files) ++ [SetTimeout 0] ++
       (ReadAsDataURL <$> take 10 (drop 10 files)) ++ [SetTimeout 0] ++
       (ReadAsDataURL <$> drop 20 files)).
Proof.
  rewrite processImages_spec, without_yield_spec. cbn [trace settled].
  split; [reflexivity |].
  split; [intros file; apply events_no_yield |].
  split; [exact (yields_counted this files 0) |].
  split; [reflexivity |].
  split; [exact (trace_without_yields this files 0) |].
  intros Hlen Hall.
  exists (omap (entry this) files).
  pose proof (entries_all_accepted this files Hall) as Hfiles.
  split; [reflexivity |]. split; [| split; [assumption |]].
  - by rewrite <- (length_fmap ProcessedImage.file), Hfiles.
  - rewrite (imap_ext _ (fun j f => [ReadAsDataURL f] ++ yield_after j)).
    + do 25 (destruct files as [|? files]; [discriminate Hlen |]).
      destruct files; [reflexivity | discriminate Hlen].
    + intros j f Hj.
      rewrite Forall_lookup in Hall. destruct (Hall j f Hj) as [Hv Hr].
      by rewrite (events_accepted _ _ Hv Hr).
Qed.

End BatchProcessor.

Lemma processImages_isolates_failures_witness :
  length sample_batch_two_failures = 25 /\
  sample_batch_two_failures !! 3 = Some sample_text_file /\
  sample_batch_two_failures !! 7 = Some sample_unreadable_png /\
  exists images : list ProcessedImage.t,
    settled (processImages sample_toString sample_readAsDataURL imageHandler
               sample_batch_two_failures) = Resolved images /\
    length images = 23 /\
    ProcessedImage.file <$> images = delete 3 (delete 7 sample_batch_two_failures).
Proof.
  split; [reflexivity |]. split; [reflexivity |]. split; [reflexivity |].
  destruct (processImages_isolates_failures sample_toString sample_readAsDataURL
              imageHandler sample_batch_two_failures 3 7
              sample_text_file sample_unreadable_png)
    as (images & Hs & Hl & Hf & _).
  - reflexivity.
  - lia.
  - reflexivity.
  - reflexivity.
  - reflexivity.
  - reflexivity.
  - reflexivity.
  - repeat (constructor; [split; [reflexivity | by eexists] |]). constructor.
  - exists images. auto.
Defined.

Lemma processImages_yields_every_tenth_witness :
  length sample_batch = 25 /\
  exists images : list ProcessedImage.t,
    settled (processImages sample_toString sample_readAsDataURL imageHandler sample_batch)
      = Resolved images /\
    length images = 25 /\
    length (List.filter is_yield
              (trace (processImages sample_toString sample_readAsDataURL imageHandler
                        sample_batch))) = 2.
Proof.
  split; [reflexivity |].
  destruct (processImages_yields_every_tenth sample_toString sample_readAsDataURL
              imageHandler sample_batch)
    as (_ & _ & Hcount & _ & _ & H25).
  destruct H25 as (images & Hs & Hl & _).
  - reflexivity.
  - repeat (constructor; [split; [reflexivity | by eexists] |]). constructor.
  - exists images. auto.
Defined.

(* ------------------------------------------------------------------------- *)
(** ** The upload simulator *)

Section UploadSimulator.

Variable readAsDataURL : File.t -> option string.

Local Abbreviation upload := (uploadImage readAsDataURL).
Local Abbreviation upload_all := (uploadImages readAsDataURL).
Local Abbreviation entry_of := (upload_entry readAsDataURL).

Lemma uploadImage_cases (file : File.t) :
  upload file =
    mkPromise [SetTimeout 500; ReadAsDataURL file]
      match readAsDataURL file with
      | Some url => Resolved (UploadSuccess url (File.name file) (File.size file))
      | None => Rejected (mkError "Failed to convert file")
      end.
Proof.
  unfold uploadImage, convertToDataUrl. destruct (readAsDataURL file); reflexivity.
Qed.

(** C8: the single upload rejects exactly when the read of the file fails;
    when the read succeeds it resolves with a success entry whose url is the
    data URL read from the file, the one the preview producer resolves with,
    and whose filename and size are the file's. *)
Theorem uploadImage_fails_iff_read_fails (file : File.t) :
  ((exists e, settled (upload file) = Rejected e) <-> readAsDataURL file = None) /\
  ((exists r, settled (upload file) = Resolved r) <-> is_Some (readAsDataURL file)) /\
  (forall url,
     readAsDataURL file = Some url ->
     settled (upload file)
       = Resolved (UploadSuccess url (File.name file) (File.size file)) /\
     settled (createPreview readAsDataURL file) = Resolved url /\
     settled (convertToDataUrl readAsDataURL file) = Resolved url).
Proof.
  rewrite uploadImage_cases. unfold createPreview, convertToDataUrl. cbn [settled].
  destruct (readAsDataURL file) as [url|]; cbn.
  - split; [split; [intros [e [=]] | discriminate] |].
    split; [split; [by eexists | by eexists] |].
    by intros ? [= <-].
  - split; [split; [reflexivity | by eexists] |].
    split; [split; [intros [r [=]] | by intros [? [=]]] |].
    discriminate.
Qed.

Lemma uploadImages_loop_cons (file : File.t) (files : list File.t)
    (results : list UploadResult) :
  uploadImages_loop readAsDataURL (file :: files) results =
    let rest := uploadImages_loop readAsDataURL files (results ++ [entry_of file]) in
    mkPromise ([SetTimeout 500; ReadAsDataURL file] ++ trace rest) (settled rest).
Proof.
  cbn [uploadImages_loop]. rewrite uploadImage_cases. unfold upload_entry.
  destruct (readAsDataURL file); cbn;
    destruct (settled (uploadImages_loop _ _ _)); reflexivity.
Qed.

Lemma uploadImages_loop_spec (files : list File.t) :
  forall results : list UploadResult,
    uploadImages_loop readAsDataURL files results =
      mkPromise
        (concat ((fun file => [SetTimeout 500; ReadAsDataURL file]) <$> files))
        (Resolved (results ++ (entry_of <$> files))).
Proof.
  induction files as [|file files IH]; intros results.
  - cbn. by rewrite app_nil_r.
  - rewrite uploadImages_loop_cons, IH. cbn [trace settled fmap list_fmap concat].
    by rewrite <- (app_assoc results).
Qed.

(** C5: the batch upload always resolves, with exactly one entry per input
    file, in input order: the entry at index [k] is a failure carrying the
    name of file [k] when the read of that file fails, and a success
    carrying its data URL, name and size otherwise, whatever happens to the
    other files; so when file [k] is the one whose read fails, every other
    entry is a success. *)
Theorem uploadImages_one_entry_per_file (files : list File.t) :
  exists results : list UploadResult,
    settled (upload_all files) = Resolved results /\
    length results = length files /\
    forall (k : nat) (file : File.t),
      files !! k = Some file ->
      exists r,
        results !! k = Some r /\
        filename r = File.name file /\
        (readAsDataURL file = None ->
         success r = false /\
         r = UploadFailure "Failed to convert file" (File.name file)) /\
        (forall url,
           readAsDataURL file = Some url ->
           success r = true /\
           r = UploadSuccess url (File.name file) (File.size file)) /\
        (readAsDataURL file = None ->
         (forall j f, j <> k -> files !! j = Some f -> is_Some (readAsDataURL f)) ->
         forall j r', j <> k -> results !! j = Some r' -> success r' = true).
Proof.
  exists (entry_of <$> files).
  unfold uploadImages. rewrite uploadImages_loop_spec. cbn [app].
  split; [reflexivity |]. split; [apply length_fmap |].
  intros k file Hk. exists (entry_of file).
  rewrite list_lookup_fmap, Hk. split; [reflexivity |].
  unfold upload_entry. destruct (readAsDataURL file) as [url|]; cbn.
  - split; [reflexivity |]. split; [discriminate |].
    split; [by intros ? [= <-] | discriminate].
  - split; [reflexivity |]. split; [done |]. split; [discriminate |].
    intros _ Hothers j r' Hjk Hj.
    rewrite list_lookup_fmap in Hj.
    destruct (files !! j) as [f|] eqn:Hf; [| discriminate].
    injection Hj as <-.
    destruct (Hothers j f Hjk Hf) as [url Hurl].
    unfold upload_entry. by rewrite Hurl.
Qed.

End UploadSimulator.

Lemma uploadImages_one_entry_per_file_witness :
  exists results : list UploadResult,
    settled (uploadImages sample_readAsDataURL sample_uploads) = Resolved results /\
    length results = 3 /\
    results !! 1 = Some (UploadFailure "Failed to convert file" "broken.png") /\
    results !! 2 = Some (UploadSuccess "data:image/png;base64," "photo2.png" 2048).
Proof.
  destruct (uploadImages_one_entry_per_file sample_readAsDataURL sample_uploads)
    as (results & Hs & Hl & Hk).
  exists results. split; [exact Hs |]. split; [exact Hl |]. split.
  - destruct (Hk 1 sample_unreadable_png eq_refl) as (r & Hr & _ & Hfail & _ & _).
    destruct (Hfail eq_refl) as [_ ->]. exact Hr.
  - destruct (Hk 2 (sample_png 2) eq_refl) as (r & Hr & _ & _ & Hok & _).
    destruct (Hok "data:image/png;base64," eq_refl) as [_ ->]. exact Hr.
Defined.

(* ------------------------------------------------------------------------- *)
(** ** Data URLs produced by the preview producer *)

Section Base64.

Lemma base64_index_char (s : N) :
  (s < 64)%N -> base64_index (base64_char s) = Some s.
Proof.
  intros Hs. rewrite <- (N2Nat.id s).
  assert (Hn : N.to_nat s < 64) by lia.
  generalize dependent (N.to_nat s). clear Hs. intros n Hn.
  do 64 (destruct n as [|n]; [reflexivity |]). lia.
Qed.

Lemma base64_char_not_pad (s : N) :
  (s < 64)%N -> Ascii.eqb (base64_char s) base64_pad = false.
Proof.
  intros Hs. rewrite <- (N2Nat.id s).
  assert (Hn : N.to_nat s < 64) by lia.
  generalize dependent (N.to_nat s). clear Hs. intros n Hn.
  do 64 (destruct n as [|n]; [reflexivity |]). lia.
Qed.

Lemma byte_of_to_N (b : Byte.byte) : byte_of_N (Byte.to_N b) = b.
Proof. unfold byte_of_N. by rewrite Byte.of_to_N. Qed.

Lemma byte_of_N_eq (n : N) (b : Byte.byte) : n = Byte.to_N b -> byte_of_N n = b.
Proof. intros ->. apply byte_of_to_N. Qed.

Lemma byte_to_N_lt (b : Byte.byte) : (Byte.to_N b < 256)%N.
Proof. pose proof (Byte.to_N_bounded b). lia. Qed.

Lemma base64_decode_quad (c1 c2 c3 c4 : ascii) (s' : string) :
  base64_decode (String c1 (String c2 (String c3 (String c4 s')))) =
    match base64_index c1, base64_index c2 with
    | Some s1, Some s2 =>
        let b1 := byte_of_N (s1 * 4 + s2 / 16) in
        if Ascii.eqb c3 base64_pad then
          if Ascii.eqb c4 base64_pad && String.eqb s' "" then Some [b1] else None
        else
          match base64_index c3 with
          | Some s3 =>
              let b2 := byte_of_N (s2 mod 16 * 16 + s3 / 4) in
              if Ascii.eqb c4 base64_pad then
                if String.eqb s' "" then Some [b1; b2] else None
              else
                match base64_index c4, base64_decode s' with
                | Some s4, Some bs' =>
                    Some (b1 :: b2 :: byte_of_N (s3 mod 4 * 64 + s4) :: bs')
                | _, _ => None
                end
          | None => None
          end
    | _, _ => None
    end%N.
Proof. reflexivity. Qed.

Lemma list_ind_triples {A : Type} (P : list A -> Prop) :
  P [] ->
  (forall a, P [a]) ->
  (forall a b, P [a; b]) ->
  (forall a b c l, P l -> P (a :: b :: c :: l)) ->
  forall l, P l.
Proof.
  intros H0 H1 H2 H3.
  assert (Hall : forall l, P l /\ (forall a, P (a :: l)) /\ (forall a b, P (a :: b :: l))).
  { induction l as [|x l (IH0 & IH1 & IH2)]; [by auto |].
    split; [apply IH1 |]. split; [intros a; apply IH2 |]. intros a b. by apply H3. }
  intros l. apply Hall.
Qed.

Ltac div_lia := zify; Z.to_euclidean_division_equations; lia.

Ltac sextet_bounds :=
  repeat match goal with
         | b : Byte.byte |- _ =>
             lazymatch goal with
             | _ : (Byte.to_N b < 256)%N |- _ => fail
             | _ => pose proof (byte_to_N_lt b)
             end
         end.

(** Decoding inverts encoding. *)
Lemma base64_decode_encode (bs : list Byte.byte) :
  base64_decode (base64_encode bs) = Some bs.
Proof.
  induction bs as [|b1|b1 b2|b1 b2 b3 bs IH] using list_ind_triples.
  - reflexivity.
  - cbn [base64_encode]. cbv zeta. rewrite base64_decode_quad. sextet_bounds.
    rewrite !base64_index_char by div_lia. cbn zeta.
    rewrite Ascii.eqb_refl. cbn [andb String.eqb].
    do 2 f_equal. apply byte_of_N_eq. div_lia.
  - cbn [base64_encode]. cbv zeta. rewrite base64_decode_quad. sextet_bounds.
    rewrite !base64_index_char by div_lia. cbn zeta.
    rewrite base64_char_not_pad by div_lia. rewrite Ascii.eqb_refl. cbn [String.eqb].
    f_equal. f_equal; [| f_equal].
    + apply byte_of_N_eq. div_lia.
    + apply byte_of_N_eq. div_lia.
  - cbn [base64_encode]. cbv zeta. rewrite base64_decode_quad. sextet_bounds.
    rewrite !base64_index_char by div_lia. cbn zeta.
    rewrite !base64_char_not_pad by div_lia. rewrite IH.
    f_equal. f_equal; [| f_equal; [| f_equal]].
    + apply byte_of_N_eq. div_lia.
    + apply byte_of_N_eq. div_lia.
    + apply byte_of_N_eq. div_lia.
Qed.

End Base64.

(** C9: when the read of a file succeeds, the preview producer resolves with
    [data:<mime>;base64,<payload>] where [<mime>] is the file's declared type,
    and base64-decoding the payload gives back exactly the file's bytes. *)
Theorem createPreview_round_trip (file : File.t) (url : string) :
  FileReader_readAsDataURL file = Some url ->
  exists (content : list Byte.byte) (payload : string),
    File.bytes file = Some content /\
    settled (createPreview FileReader_readAsDataURL file) = Resolved url /\
    url = "data:" +:+ File.type file +:+ ";base64," +:+ payload /\
    base64_decode payload = Some content.
Proof.
  unfold createPreview, FileReader_readAsDataURL.
  destruct (File.bytes file) as [content|]; [| discriminate].
  intros [= <-]. exists content, (base64_encode content).
  split; [reflexivity |]. split; [reflexivity |]. split; [reflexivity |].
  apply base64_decode_encode.
Qed.

Lemma createPreview_round_trip_witness :
  FileReader_readAsDataURL sample_man = Some "data:image/png;base64,TWFu" /\
  settled (createPreview FileReader_readAsDataURL sample_man)
    = Resolved "data:image/png;base64,TWFu" /\
  base64_decode "TWFu" = File.bytes sample_man.
Proof.
  destruct (createPreview_round_trip sample_man "data:image/png;base64,TWFu" eq_refl)
    as (content & payload & Hc & Hs & Hu & Hd).
  split; [reflexivity |]. split; [exact Hs |]. reflexivity.
Defined.

(* ------------------------------------------------------------------------- *)
(** ** More on the validator *)

Section ValidatorVerdicts.

Variable Number_toString : Q -> string.

Local Abbreviation validate := (validateImage Number_toString).
Local Abbreviation fixed := (toFixed Number_toString).

(** X1: a file is accepted exactly when its type is one of the allowed types
    and its size does not exceed the limit; a size equal to the limit is
    accepted. *)
Theorem validateImage_accepts_iff (this : ImageHandler) (file : File.t) :
  valid (validate this file) = true <->
  File.type file ∈ allowedTypes this /\ (File.size file <= maxFileSize this)%N.
Proof.
  rewrite validateImage_cases. cbn [valid].
  rewrite andb_true_iff, negb_true_iff, includes_spec, N.ltb_ge. reflexivity.
Qed.

(** X2: a file of a disallowed type within the size limit gets exactly one
    error, the type error. *)
Theorem validateImage_only_type_fails (this : ImageHandler) (file : File.t) :
  File.type file ∉ allowedTypes this ->
  (File.size file <= maxFileSize this)%N ->
  valid (validate this file) = false /\
  errors (validate this file) =
    ["Invalid file type: " +:+ File.type file +:+ ". Allowed types: "
       +:+ join ", " (allowedTypes this)].
Proof.
  intros Htype Hsize. rewrite validateImage_cases.
  rewrite (includes_notin _ _ Htype), (proj2 (N.ltb_ge _ _) Hsize). by split.
Qed.

(** X3: a file of an allowed type above the size limit gets exactly one
    error, the size error. *)
Theorem validateImage_only_size_fails (this : ImageHandler) (file : File.t) :
  File.type file ∈ allowedTypes this ->
  (maxFileSize this < File.size file)%N ->
  valid (validate this file) = false /\
  errors (validate this file) =
    ["File too large: " +:+ fixed (num (File.size file) / 1024 / 1024) 2
       +:+ "MB. Maximum size: "
       +:+ fixed (num (maxFileSize this) / 1024 / 1024) 2 +:+ "MB"].
Proof.
  intros Htype Hsize. rewrite validateImage_cases.
  rewrite (proj2 (includes_spec _ _) Htype), (ltb_of_lt _ _ Hsize). by split.
Qed.

(** X4: the verdict depends on the declared type and size only: neither the
    name nor the content of the file is looked at. *)
Theorem validateImage_ignores_name_and_content (this : ImageHandler) (f g : File.t) :
  File.type f = File.type g ->
  File.size f = File.size g ->
  validate this f = validate this g.
Proof. intros Ht Hs. rewrite !validateImage_cases. by rewrite Ht, Hs. Qed.

(** X5: the handler built by the constructor accepts a file exactly when its
    type is literally one of the five lower-case image types and its size is
    at most 5,242,880 bytes. *)
Theorem imageHandler_accepts_iff (file : File.t) :
  valid (validate imageHandler file) = true <->
  (File.type file = "image/jpeg" \/ File.type file = "image/jpg" \/
   File.type file = "image/png" \/ File.type file = "image/gif" \/
   File.type file = "image/webp") /\
  (File.size file <= 5242880)%N.
Proof.
  rewrite validateImage_cases. cbn [valid].
  rewrite andb_true_iff, negb_true_iff, includes_spec, N.ltb_ge.
  cbn [imageHandler ImageHandler_new allowedTypes maxFileSize].
  change (5 * 1024 * 1024)%N with 5242880%N.
  rewrite !elem_of_cons, elem_of_nil. tauto.
Qed.

(** X6: under the constructor's policy, every file of more than 5,242,880 and
    at most 5,248,122 bytes is rejected with a message that shows its size
    as equal to the maximum: both round to 5.00 megabytes. *)
Theorem imageHandler_size_error_rounds_to_limit (file : File.t) :
  (5242880 < File.size file <= 5248122)%N ->
  valid (validate imageHandler file) = false /\
  last (errors (validate imageHandler file))
    = Some "File too large: 5.00MB. Maximum size: 5.00MB".
Proof.
  intros [Hlo Hhi]. rewrite validateImage_cases. cbn [valid errors].
  cbn [imageHandler ImageHandler_new allowedTypes maxFileSize].
  change (5 * 1024 * 1024)%N with 5242880%N.
  rewrite (ltb_of_lt _ _ Hlo).
  rewrite !toFixed_megabytes by (unfold fixed_notation_limit; lia).
  assert (Hs : hundredths_of_MB (File.size file) = 500%N).
  { unfold hundredths_of_MB.
    change (2 ^ 20)%N with 1048576%N. change (2 ^ 21)%N with 2097152%N.
    zify; Z.to_euclidean_division_equations; lia. }
  rewrite Hs. split; [apply andb_false_r |].
  change (two_decimals 500) with "5.00".
  change (two_decimals (hundredths_of_MB 5242880)) with "5.00".
  by destruct (includes _ _).
Qed.

End ValidatorVerdicts.

Lemma validateImage_only_type_fails_witness :
  valid (validateImage sample_toString imageHandler sample_text_file) = false /\
  length (errors (validateImage sample_toString imageHandler sample_text_file)) = 1.
Proof.
  destruct (validateImage_only_type_fails sample_toString imageHandler sample_text_file)
    as [Hv He].
  - apply includes_false. reflexivity.
  - discriminate.
  - split; [exact Hv |]. by rewrite He.
Defined.

Lemma validateImage_only_size_fails_witness :
  valid (validateImage sample_toString imageHandler sample_just_too_large) = false /\
  length (errors (validateImage sample_toString imageHandler sample_just_too_large)) = 1.
Proof.
  destruct (validateImage_only_size_fails sample_toString imageHandler sample_just_too_large)
    as [Hv He].
  - apply includes_spec. reflexivity.
  - reflexivity.
  - split; [exact Hv |]. by rewrite He.
Defined.

Lemma validateImage_ignores_name_and_content_witness :
  File.name (sample_png 0) <> File.name sample_renamed /\
  File.bytes (sample_png 0) <> File.bytes sample_renamed /\
  validateImage sample_toString imageHandler (sample_png 0)
    = validateImage sample_toString imageHandler sample_renamed.
Proof.
  split; [discriminate |]. split; [discriminate |].
  apply (validateImage_ignores_name_and_content sample_toString imageHandler
           (sample_png 0) sample_renamed); reflexivity.
Defined.

Lemma imageHandler_size_error_rounds_to_limit_witness :
  (5242880 < File.size sample_just_too_large <= 5248122)%N /\
  errors (validateImage sample_toString imageHandler sample_just_too_large)
    = ["File too large: 5.00MB. Maximum size: 5.00MB"].
Proof.
  assert (H : (5242880 < File.size sample_just_too_large <= 5248122)%N)
    by (split; [reflexivity | discriminate]).
  destruct (imageHandler_size_error_rounds_to_limit sample_toString sample_just_too_large H)
    as [_ Hl].
  split; [exact H | reflexivity].
Defined.

(* ------------------------------------------------------------------------- *)
(** ** More on the batch processor *)

Section BatchTraces.

Variable Number_toString : Q -> string.
Variable readAsDataURL : File.t -> option string.

Local Abbreviation validate := (validateImage Number_toString).
Local Abbreviation process := (processImages Number_toString readAsDataURL).
Local Abbreviation entry := (process_one Number_toString readAsDataURL).
Local Abbreviation events := (file_events Number_toString readAsDataURL).

Lemma entry_None (this : ImageHandler) (file : File.t) :
  entry this file = None <->
  valid (validate this file) = false \/ readAsDataURL file = None.
Proof.
  unfold process_one.
  destruct (valid (validate this file)); [destruct (readAsDataURL file) |];
    split; intros H; try done; try (by left); try (by right).
  by destruct H.
Qed.

Lemma batch_trace_cons (this : ImageHandler) (i : nat) (file : File.t) (files : list File.t) :
  concat (imap (fun j f => events this f ++ yield_after (i + j)) (file :: files)) =
    events this file ++ yield_after i ++
    concat (imap (fun j f => events this f ++ yield_after (S i + j)) files).
Proof.
  rewrite imap_cons, Nat.add_0_r. cbn [concat]. rewrite <- app_assoc. do 3 f_equal.
  apply imap_ext. intros j f _. cbn. do 2 f_equal. lia.
Qed.

(** X7: the processor resolves with no entry exactly when every file of the
    batch fails validation or cannot be read; in particular on an empty
    batch. *)
Theorem processImages_nothing_iff (this : ImageHandler) (files : list File.t) :
  settled (process this files) = Resolved [] <->
  Forall (fun file => valid (validate this file) = false \/ readAsDataURL file = None) files.
Proof.
  rewrite processImages_spec. cbn [settled].
  induction files as [|file files IH].
  - split; [constructor | reflexivity].
  - cbn [omap list_omap]. rewrite Forall_cons, <- IH, <- entry_None.
    destruct (entry this file); split.
    + discriminate.
    + by intros [[=] _].
    + by intros.
    + by intros [_ ?].
Qed.

(** X8: previews are read for exactly the files that pass validation, once
    each and in input order; a file that fails validation is never read. *)
Theorem processImages_reads_valid_files (this : ImageHandler) (files : list File.t) :
  omap read_of (trace (process this files))
    = List.filter (fun file => valid (validate this file)) files.
Proof.
  unfold processImages. rewrite processImages_loop_spec. cbn [trace]. generalize 0.
  induction files as [|file files IH]; intros i; [reflexivity |].
  rewrite batch_trace_cons, !omap_app, IH. cbn [List.filter].
  unfold file_events, yield_after.
  destruct (valid (validate this file)); [destruct (readAsDataURL file) |];
    by destruct (i mod 10 =? 9).
Qed.

Lemma events_warnings (this : ImageHandler) (file : File.t) :
  length (List.filter is_console_warn (events this file))
    = if valid (validate this file) then 0 else 1.
Proof.
  unfold file_events.
  destruct (valid (validate this file)); [destruct (readAsDataURL file) |]; reflexivity.
Qed.

Lemma events_errors (this : ImageHandler) (file : File.t) :
  length (List.filter is_console_error (events this file))
  + length (omap (entry this) [file])
    = if valid (validate this file) then 1 else 0.
Proof.
  unfold file_events, process_one. cbn [omap list_omap].
  destruct (valid (validate this file)); [destruct (readAsDataURL file) |]; reflexivity.
Qed.

Lemma yield_after_quiet (i : nat) :
  List.filter is_console_warn (yield_after i) = [] /\
  List.filter is_console_error (yield_after i) = [].
Proof. unfold yield_after. by destruct (i mod 10 =? 9). Qed.

(** X9: every file of the batch is accounted for exactly once: as an entry
    of the result, as a warning about an invalid file, or as an error about
    a failed preview. *)
Theorem processImages_accounts_for_every_file (this : ImageHandler) (files : list File.t) :
  exists images : list ProcessedImage.t,
    settled (process this files) = Resolved images /\
    length images
    + length (List.filter is_console_warn (trace (process this files)))
    + length (List.filter is_console_error (trace (process this files)))
    = length files /\
    length (List.filter is_console_warn (trace (process this files)))
    = length (List.filter (fun file => negb (valid (validate this file))) files).
Proof.
  exists (omap (entry this) files).
  unfold processImages. rewrite processImages_loop_spec. cbn [settled trace app].
  split; [reflexivity |]. generalize 0.
  induction files as [|file files IH]; intros i; [by split |].
  destruct (IH (S i)) as [IH1 IH2].
  rewrite batch_trace_cons, !List.filter_app, !length_app.
  destruct (yield_after_quiet i) as [-> ->].
  change (omap (entry this) (file :: files))
    with (omap (entry this) ([file] ++ files)).
  rewrite omap_app, length_app.
  pose proof (events_warnings this file) as Hw.
  pose proof (events_errors this file) as He.
  cbn [List.filter length].
  destruct (valid (validate this file)); cbn [negb length] in *; split; lia.
Qed.

(** X10: processing the files of the result again gives the same result. *)
Theorem processImages_stable_on_accepted (this : ImageHandler) (files : list File.t) :
  exists images : list ProcessedImage.t,
    settled (process this files) = Resolved images /\
    settled (process this (ProcessedImage.file <$> images)) = Resolved images.
Proof.
  exists (omap (entry this) files).
  rewrite !processImages_spec. cbn [settled].
  split; [reflexivity |]. f_equal.
  pose proof (entries_built_from_valid_files Number_toString readAsDataURL this files) as Hall.
  induction Hall as [|img images (Hv & Hr & Himg) _ IH]; [reflexivity |].
  cbn [fmap list_fmap omap list_omap].
  rewrite (entry_accepted _ _ _ _ _ Hv Hr), <- Himg. by rewrite IH.
Qed.

Lemma yield_after_shift (n j : nat) : n mod 10 = 0 -> yield_after (n + j) = yield_after j.
Proof.
  intros Hn. unfold yield_after.
  replace ((n + j) mod 10) with (j mod 10); [reflexivity |].
  pose proof (Nat.div_mod_eq n 10). pose proof (Nat.div_mod_eq j 10).
  pose proof (Nat.mod_upper_bound j 10).
  apply (Nat.mod_unique _ 10 (n / 10 + j / 10)); lia.
Qed.

Lemma events_last_not_yield (this : ImageHandler) (file : File.t) :
  exists ev, last (events this file) = Some ev /\ ev <> SetTimeout 0.
Proof.
  unfold file_events.
  destruct (valid (validate this file)); [destruct (readAsDataURL file) |];
    eexists; (split; [reflexivity | discriminate]).
Qed.

(** X11: the entries of a concatenated batch are those of its two parts, one
    after the other; and when the first part has a multiple of ten files,
    so are the host interactions: processing in chunks of ten files gives
    what processing the whole batch gives. *)
Theorem processImages_app (this : ImageHandler) (xs ys : list File.t) :
  exists ix iy : list ProcessedImage.t,
    settled (process this xs) = Resolved ix /\
    settled (process this ys) = Resolved iy /\
    settled (process this (xs ++ ys)) = Resolved (ix ++ iy) /\
    (length xs mod 10 = 0 ->
     trace (process this (xs ++ ys)) = trace (process this xs) ++ trace (process this ys)).
Proof.
  exists (omap (entry this) xs), (omap (entry this) ys).
  rewrite !processImages_spec. cbn [settled trace].
  split; [reflexivity |]. split; [reflexivity |].
  split; [by rewrite omap_app |].
  intros Hlen. rewrite imap_app, concat_app. f_equal. f_equal.
  apply imap_ext. intros j f _. cbn. by rewrite yield_after_shift.
Qed.

(** X12: on a non-empty batch the last host interaction is the zero-delay
    timer exactly when the number of files is a multiple of ten: the
    processor then yields once more although no file is left. *)
Theorem processImages_trailing_yield (this : ImageHandler) (files : list File.t) :
  files <> [] ->
  (last (trace (process this files)) = Some (SetTimeout 0) <-> length files mod 10 = 0).
Proof.
  intros Hne. destruct files as [|f init _] using rev_ind; [done |]. clear Hne.
  rewrite processImages_spec. cbn [trace].
  rewrite imap_app, concat_app. cbn [imap concat]. rewrite app_nil_r, Nat.add_0_r.
  rewrite length_app. cbn [length].
  destruct (events_last_not_yield this f) as (ev & Hev & Hneq).
  rewrite !last_app. unfold yield_after.
  pose proof (Nat.div_mod_eq (length init) 10) as H1.
  pose proof (Nat.div_mod_eq (length init + 1) 10) as H2.
  pose proof (Nat.mod_upper_bound (length init) 10) as H3.
  pose proof (Nat.mod_upper_bound (length init + 1) 10) as H4.
  destruct (Nat.eqb_spec (length init mod 10) 9) as [E|E]; cbn [last].
  - split; [intros _; lia | reflexivity].
  - rewrite Hev. split; [intros [= ->]; done | lia].
Qed.

End BatchTraces.

Lemma processImages_app_witness :
  length sample_twenty mod 10 = 0 /\
  trace (processImages sample_toString sample_readAsDataURL imageHandler
           (sample_twenty ++ sample_batch_two_failures))
  = trace (processImages sample_toString sample_readAsDataURL imageHandler sample_twenty)
    ++ trace (processImages sample_toString sample_readAsDataURL imageHandler
                sample_batch_two_failures).
Proof.
  destruct (processImages_app sample_toString sample_readAsDataURL imageHandler
              sample_twenty sample_batch_two_failures)
    as (ix & iy & _ & _ & _ & Htrace).
  split; [reflexivity |]. apply Htrace. reflexivity.
Defined.

Lemma processImages_trailing_yield_witness :
  sample_twenty <> [] /\
  last (trace (processImages sample_toString sample_readAsDataURL imageHandler
                 sample_twenty)) = Some (SetTimeout 0).
Proof.
  assert (H : sample_twenty <> []) by discriminate.
  split; [exact H |].
  apply (processImages_trailing_yield sample_toString sample_readAsDataURL imageHandler
           sample_twenty H).
  reflexivity.
Defined.

(* ------------------------------------------------------------------------- *)
(** ** More on the upload simulator *)

Section UploadTraces.

Variable Number_toString : Q -> string.
Variable readAsDataURL : File.t -> option string.

Local Abbreviation validate := (validateImage Number_toString).
Local Abbreviation process := (processImages Number_toString readAsDataURL).
Local Abbreviation entry := (process_one Number_toString readAsDataURL).
Local Abbreviation upload := (uploadImage readAsDataURL).
Local Abbreviation upload_all := (uploadImages readAsDataURL).
Local Abbreviation entry_of := (upload_entry readAsDataURL).

Lemma uploadImages_spec (files : list File.t) :
  upload_all files =
    mkPromise (concat ((fun file => [SetTimeout 500; ReadAsDataURL file]) <$> files))
              (Resolved (entry_of <$> files)).
Proof. unfold uploadImages. by rewrite uploadImages_loop_spec. Qed.

(** X13: the batch upload waits 500 and then reads, once per file and in
    input order, whether or not the read succeeds; it waits 500 times the
    number of files in total and writes nothing to the console. *)
Theorem uploadImages_delays_then_reads (files : list File.t) :
  trace (upload_all files)
    = concat ((fun file => [SetTimeout 500; ReadAsDataURL file]) <$> files) /\
  total_delay (trace (upload_all files)) = (500 * N.of_nat (length files))%N /\
  omap read_of (trace (upload_all files)) = files /\
  List.filter (fun ev => is_console_warn ev || is_console_error ev)
    (trace (upload_all files)) = [].
Proof.
  rewrite uploadImages_spec. cbn [trace]. split; [reflexivity |].
  induction files as [|file files (IHd & IHr & IHc)]; [by repeat split |].
  cbn [fmap list_fmap concat app total_delay foldr delay_of omap list_omap read_of
       List.filter is_console_warn is_console_error orb length].
  fold (total_delay (concat ((fun f => [SetTimeout 500; ReadAsDataURL f]) <$> files))).
  rewrite IHd, IHr, IHc. repeat split. lia.
Qed.

(** X14: uploading a concatenated batch is uploading its first part and then
    its second part: the interactions and the entries are those of the two
    parts, one after the other. *)
Theorem uploadImages_app (xs ys : list File.t) :
  exists rx ry : list UploadResult,
    settled (upload_all xs) = Resolved rx /\
    settled (upload_all ys) = Resolved ry /\
    upload_all (xs ++ ys) =
      mkPromise (trace (upload_all xs) ++ trace (upload_all ys)) (Resolved (rx ++ ry)).
Proof.
  exists (entry_of <$> xs), (entry_of <$> ys).
  rewrite !uploadImages_spec. cbn [trace settled].
  split; [reflexivity |]. split; [reflexivity |].
  by rewrite !fmap_app, concat_app.
Qed.

Lemma upload_entry_success (file : File.t) :
  success (entry_of file) = readable readAsDataURL file.
Proof. unfold upload_entry, readable. by destruct (readAsDataURL file). Qed.

Lemma upload_entry_failure (file : File.t) :
  readable readAsDataURL file = false ->
  entry_of file = UploadFailure "Failed to convert file" (File.name file).
Proof. unfold upload_entry, readable. by destruct (readAsDataURL file). Qed.

(** X15: the failures of a batch upload are those of the unreadable files, in
    input order and under their names, each with the message of
    [convertToDataUrl]; the successes are as many as the readable files. *)
Theorem uploadImages_failures (files : list File.t) :
  exists results : list UploadResult,
    settled (upload_all files) = Resolved results /\
    List.filter (fun r => negb (success r)) results
      = (fun file => UploadFailure "Failed to convert file" (File.name file))
          <$> List.filter (fun file => negb (readable readAsDataURL file)) files /\
    length (List.filter success results)
      = length (List.filter (readable readAsDataURL) files).
Proof.
  exists (entry_of <$> files). rewrite uploadImages_spec. cbn [settled].
  split; [reflexivity |].
  induction files as [|file files [IHf IHs]]; [by split |].
  cbn [fmap list_fmap List.filter]. cbn [fmap] in IHf, IHs.
  rewrite upload_entry_success.
  destruct (readable readAsDataURL file) eqn:Hr; cbn [negb length fmap list_fmap].
  - by rewrite IHf, IHs.
  - by rewrite IHf, IHs, (upload_entry_failure _ Hr).
Qed.

(** X16: every file the batch processor accepted uploads successfully, and
    the url reported for it is its preview url (the host reading a file the
    same way each time). *)
Theorem processed_images_upload (this : ImageHandler) (files : list File.t) :
  exists images : list ProcessedImage.t,
    settled (process this files) = Resolved images /\
    settled (upload_all (ProcessedImage.file <$> images)) = Resolved (uploaded <$> images).
Proof.
  exists (omap (entry this) files).
  rewrite processImages_spec, uploadImages_spec. cbn [settled].
  split; [reflexivity |]. f_equal.
  pose proof (entries_built_from_valid_files Number_toString readAsDataURL this files) as Hall.
  induction Hall as [|img images (_ & Hr & Himg) _ IH]; [reflexivity |].
  cbn [fmap list_fmap]. cbn [fmap] in IH. rewrite IH. f_equal.
  unfold upload_entry. rewrite Hr, Himg. reflexivity.
Qed.

(** X17: the upload functions do not validate: a readable file that fails
    validation is dropped by the batch processor and yet uploaded with
    success. *)
Theorem upload_does_not_validate (this : ImageHandler) (file : File.t) (url : string) :
  valid (validate this file) = false ->
  readAsDataURL file = Some url ->
  settled (process this [file]) = Resolved [] /\
  settled (upload file) = Resolved (UploadSuccess url (File.name file) (File.size file)) /\
  settled (upload_all [file])
    = Resolved [UploadSuccess url (File.name file) (File.size file)].
Proof.
  intros Hv Hr.
  rewrite processImages_spec, uploadImage_cases, uploadImages_spec. cbn.
  unfold process_one, upload_entry. by rewrite Hv, Hr.
Qed.

(** X18: the preview producer and [convertToDataUrl] perform the same read
    and resolve with the same url; they differ in the message they reject
    with when the read fails. *)
Theorem createPreview_convertToDataUrl (file : File.t) :
  trace (createPreview readAsDataURL file) = [ReadAsDataURL file] /\
  trace (convertToDataUrl readAsDataURL file) = [ReadAsDataURL file] /\
  (forall url,
     settled (createPreview readAsDataURL file) = Resolved url <->
     settled (convertToDataUrl readAsDataURL file) = Resolved url) /\
  (forall e,
     settled (createPreview readAsDataURL file) = Rejected e ->
     message e = "Failed to create preview" /\
     settled (convertToDataUrl readAsDataURL file)
       = Rejected (mkError "Failed to convert file")).
Proof.
  unfold createPreview, convertToDataUrl.
  destruct (readAsDataURL file) as [result|]; cbn.
  - split; [reflexivity |]. split; [reflexivity |]. split; [reflexivity |]. discriminate.
  - split; [reflexivity |]. split; [reflexivity |].
    split; [split; discriminate |]. by intros e [= <-].
Qed.

End UploadTraces.

Lemma upload_does_not_validate_witness :
  valid (validateImage sample_toString imageHandler sample_text_file) = false /\
  settled (processImages sample_toString sample_readAsDataURL imageHandler [sample_text_file])
    = Resolved [] /\
  settled (uploadImages sample_readAsDataURL [sample_text_file])
    = Resolved [UploadSuccess "data:text/plain;base64," "notes.txt" 2048].
Proof.
  destruct (upload_does_not_validate sample_toString sample_readAsDataURL imageHandler
              sample_text_file "data:text/plain;base64," eq_refl eq_refl)
    as (Hp & _ & Hu).
  split; [reflexivity |]. split; [exact Hp | exact Hu].
Defined.
